(** * Verification of [source/conf.py] (Giskard documentation build)

    The Sphinx configuration file defines two callbacks with control flow:

    - [toctree_from_doc], the template helper installed by
      [setup/html_page_context], which renders the toctrees declared in one
      document in the context of the page being written;
    - [linkcode_resolve], the [sphinx.ext.linkcode] hook that maps a Python
      object to a URL in the GitHub repository.

    Both are embedded below as executable Rocq functions.  Python exceptions
    are explicit ([outcome]), statements run in a state-and-exception monad
    ([M]).  For [linkcode_resolve] the state is that of the stream it prints
    to: [print] is a parameter of the embedding ([linkcode_resolve_on]) and
    may raise; [linkcode_resolve] is the function on a standard output that
    takes every text and records the text of each call.  For
    [toctree_from_doc] the state is the Sphinx build environment, with the
    resolved trees as values ([toctree_from_doc]) or as objects of a store
    that line 159 extends in place ([toctree_from_doc_objects]).  The
    Python runtime ([sys.modules], [getattr], [inspect]) and the Sphinx
    application ([app.env], [TocTree], [app.builder]) are not part of the
    file under study; they are records of operations the callbacks are
    parameterised by. *)

From Stdlib Require Import ZArith Ascii.
From stdpp Require Import base strings gmap list pretty.
From Equations Require Import Equations.

Local Open Scope Z_scope.

(** ** Python values, exceptions and statements *)

Module Py.

(** The exception classes that the modelled operations can raise. *)
Inductive exn : Type :=
| AttributeError
| KeyError
| IndexError
| ValueError
| TypeError
| OSError
| OtherError.

(** Result of evaluating an expression: a value, or a raised exception. *)
Inductive outcome (A : Type) : Type :=
| Ok (a : A)
| Raised (e : exn).
Global Arguments Ok {A} a.
Global Arguments Raised {A} e.

(** A statement run in state [S]: it ends normally with a value or raises,
    and in both cases leaves a state behind. *)
Definition M (S A : Type) : Type := S → outcome A * S.

Definition ret {S A} (a : A) : M S A := λ s, (Ok a, s).

Definition bind {S A B} (m : M S A) (k : A → M S B) : M S B :=
  λ s, match m s with
       | (Ok a, s') => k a s'
       | (Raised e, s') => (Raised e, s')
       end.

Definition lift {S A} (r : outcome A) : M S A := λ s, (r, s).

(** [try: body / except: handler] with a bare [except], which catches
    every exception.  Effects of [body] before the raise are kept. *)
Definition try_except {S A} (body handler : M S A) : M S A :=
  λ s, match body s with
       | (Ok a, s') => (Ok a, s')
       | (Raised _, s') => handler s'
       end.

(** Values passed as keyword arguments. *)
Inductive pyval : Type :=
| PyNone
| PyBool (b : bool)
| PyInt (z : Z)
| PyStr (s : string).

(** [d[k]] on a dict: [KeyError] when the key is missing. *)
Definition getitem {S A} (d : gmap string A) (k : string) : M S A :=
  lift (match d !! k with Some v => Ok v | None => Raised KeyError end).

(** [d.get(k, dflt)]. *)
Definition dict_get {A} (d : gmap string A) (k : string) (dflt : A) : A :=
  default dflt (d !! k).

(** [l[-1]] on a list: [IndexError] when the list is empty. *)
Definition getitem_last {A} (l : list A) : outcome A :=
  match last l with Some x => Ok x | None => Raised IndexError end.

(** [print(s)] on a standard output that takes every text: the state is
    the list of the texts printed so far, one element for each call, and
    the call never raises.  A [print] that can raise is a parameter of the
    functions that print, see [linkcode_resolve_on]. *)
Definition print (s : string) : M (list string) () :=
  λ out, (Ok (), out ++ [s]).



(** ["%d" % z]. *)
Definition fmt_d (z : Z) : string := pretty z.

(** *** [str.split(sep)] *)

(** [strip_prefix p s] is [Some rest] when [s = p ++ rest]. *)
Fixpoint strip_prefix (p s : string) : option string :=
  match p, s with
  | EmptyString, _ => Some s
  | String c p', String d s' =>
      if Ascii.eqb c d then strip_prefix p' s' else None
  | String _ _, EmptyString => None
  end.

(** Leftmost occurrence of [sep] in [s]: the text before it and the text
    after it (the outer parts of [s.partition(sep)]). *)
Fixpoint find (sep s : string) : option (string * string) :=
  match strip_prefix sep s with
  | Some rest => Some (EmptyString, rest)
  | None =>
      match s with
      | EmptyString => None
      | String c s' =>
          match find sep s' with
          | Some (a, b) => Some (String c a, b)
          | None => None
          end
      end
  end.

(** Case analysis that remembers the equation, for [split_on]. *)
Definition remember_eq {A : Type} (x : A) : { y : A | x = y } :=
  exist _ x eq_refl.

(** The splitting loop for the non-empty separator [String c sep]: cut at
    the leftmost occurrence and continue after it. *)
Equations? split_on (c : ascii) (sep : string) (s : string) : list string
  by wf (String.length s) lt :=
  split_on c sep s with remember_eq (find (String c sep) s) := {
    | exist _ None _ => [s]
    | exist _ (Some (a, b)) Hfind => a :: split_on c sep b }.
Proof.
  clear split_on.
  assert (Hstrip : ∀ p t r, strip_prefix p t = Some r →
            String.length t = (String.length p + String.length r)%nat).
  { induction p as [|x p IH]; intros t r; simpl.
    - intros [= ->]. reflexivity.
    - destruct t as [|y t]; [congruence|].
      destruct (Ascii.eqb x y); [|congruence].
      intros Hr. simpl. rewrite (IH _ _ Hr). reflexivity. }
  revert a b Hfind. induction s as [|y s IH]; intros a b.
  - simpl. congruence.
  - intros Hfind. simpl in Hfind.
    destruct (Ascii.eqb c y) eqn:Hcy.
    + destruct (strip_prefix sep s) as [r|] eqn:Hr.
      * inversion Hfind; subst. apply Hstrip in Hr. simpl. lia.
      * destruct (find (String c sep) s) as [[a' b']|] eqn:Hf; [|congruence].
        inversion Hfind; subst. specialize (IH _ _ eq_refl). simpl. lia.
    + destruct (find (String c sep) s) as [[a' b']|] eqn:Hf; [|congruence].
      inversion Hfind; subst. specialize (IH _ _ eq_refl). simpl. lia.
Qed.

(** [s.split(sep)]: [ValueError] on the empty separator. *)
Definition str_split (sep s : string) : outcome (list string) :=
  match sep with
  | EmptyString => Raised ValueError
  | String c sep' => Ok (split_on c sep' s)
  end.

End Py.

Import Py.

Global Instance M_ret {S} : MRet (M S) := λ A, @ret S A.
Global Instance M_bind {S} : MBind (M S) := λ A B k m, @bind S A B m k.

(** ** The source-link resolver *)

Module Linkcode.

(** The Python runtime as [linkcode_resolve] uses it.  [Obj] is the type of
    object references. *)
Record runtime (Obj : Type) : Type := Runtime {
  (** [sys.modules] *)
  sys_modules : gmap string Obj;
  (** [getattr(obj, name)] *)
  getattr : Obj → string → outcome Obj;
  (** the text [obj] is formatted to in an f-string, [format(obj)] *)
  format : Obj → outcome string;
  (** [inspect.getsourcefile(obj)]: a file name or [None] *)
  getsourcefile : Obj → outcome (option string);
  (** [inspect.getsourcelines(obj)]: the source lines and the line number
      of the first one *)
  getsourcelines : Obj → outcome (list string * Z);
}.
Global Arguments sys_modules {Obj} _.
Global Arguments getattr {Obj} _ _ _.
Global Arguments format {Obj} _ _.
Global Arguments getsourcefile {Obj} _ _.
Global Arguments getsourcelines {Obj} _ _.

(** A standard output that takes every text: the texts printed so far, one
    for each call of [print]. *)
Abbreviation stdout := (list string) (only parsing).

Section Resolver.
Context {Obj : Type} (rt : runtime Obj).

(** [hasattr(obj, name)]: only [AttributeError] means "no". *)
Definition hasattr (obj : Obj) (name : string) : outcome bool :=
  match getattr rt obj name with
  | Ok _ => Ok true
  | Raised AttributeError => Ok false
  | Raised e => Raised e
  end.

(** Line 198: [obj.test_fn if hasattr(obj, "test_fn") else obj], the
    object handed to [inspect.getsourcefile]. *)
Definition inspected (obj : Obj) : outcome Obj :=
  match hasattr obj "test_fn" with
  | Ok true => getattr rt obj "test_fn"
  | Ok false => Ok obj
  | Raised e => Raised e
  end.

(** Lines 196-202: the source file of that object; [None] on any
    exception. *)
Definition source_file {S} (obj : Obj) : M S (option string) :=
  try_except
    (target ← lift (inspected obj);
     lift (getsourcefile rt target))
    (mret None).

(** Lines 209-212: [(source, lineno)] of [obj], no line number on any
    exception. *)
Definition source_lines {S} (obj : Obj) : M S (option (list string * Z)) :=
  try_except
    (sl ← lift (getsourcelines rt obj);
     mret (Some sl))
    (mret None).

(** Lines 214-217. *)
Definition linespec_of (lines : option (list string * Z)) : string :=
  match lines with
  | Some (source, lineno) =>
      if decide (lineno = 0) then ""
      else "#L" +:+ fmt_d lineno +:+ "-L"
             +:+ fmt_d (lineno + Z.of_nat (length source) - 1)
  | None => ""
  end.

Section Printing.
(** [print] as it is bound when the function runs: a statement on the state
    [S] of the stream it writes to, which may raise. *)
Context {S : Type} (print : string → M S ()).

(** Body of the [for part in ...] loop, lines 187-194.  [None] means
    that the function has executed [return None]. *)
Definition walk_step_on (obj : Obj) (part : string) : M S (option Obj) :=
  try_except
    (obj' ← lift (getattr rt obj part);
     shown ← lift (format rt obj');
     print ("obj:" +:+ shown);;
     mret (Some obj'))
    (print "##############";;
     mret None).

(** The loop of lines 185-194 over the parts of the dotted name. *)
Fixpoint walk_on (obj : Obj) (parts : list string) : M S (option Obj) :=
  match parts with
  | [] => mret (Some obj)
  | part :: parts' =>
      r ← walk_step_on obj part;
      match r with
      | Some obj' => walk_on obj' parts'
      | None => mret None
      end
  end.

(** Lines 169-223. *)
Definition linkcode_resolve_on (domain : string) (info : gmap string string)
  : M S (option string) :=
  if decide (domain ≠ "py") then mret None
  else
    modname ← getitem info "module";
    fullname ← getitem info "fullname";
    print "##############";;
    print ("modname:" +:+ modname);;
    print ("fullname:" +:+ fullname);;
    match sys_modules rt !! modname with
    | None =>
        print "##############";;
        mret None
    | Some submod =>
        parts ← lift (str_split "." fullname);
        r ← walk_on submod parts;
        match r with
        | None => mret None
        | Some obj =>
            fn ← source_file obj;
            match fn with
            | None | Some EmptyString =>
                print "##############";;
                mret None
            | Some fn =>
                print ("fn:" +:+ fn);;
                lines ← source_lines obj;
                let linespec := linespec_of lines in
                print ("linespec:" +:+ linespec);;
                pieces ← lift (str_split "giskard_hub" fn);
                filename ← lift (getitem_last pieces);
                print "##############";;
                mret (Some ("https://github.com/Giskard-AI/giskard-hub/blob/main/src/giskard_hub"
                              +:+ filename +:+ linespec))
            end
        end
    end.

End Printing.

(** The same with a standard output that takes every text. *)
Definition walk_step (obj : Obj) (part : string) : M stdout (option Obj) :=
  walk_step_on Py.print obj part.

Definition walk (obj : Obj) (parts : list string) : M stdout (option Obj) :=
  walk_on Py.print obj parts.

Definition linkcode_resolve (domain : string) (info : gmap string string)
  : M stdout (option string) :=
  linkcode_resolve_on Py.print domain info.

End Resolver.

(** The [info] dict Sphinx passes for the ["py"] domain. *)
Definition py_info (modname fullname : string) : gmap string string :=
  {[ "module" := modname; "fullname" := fullname ]}.

(** *** A small runtime used in the examples

    A package [giskard_hub] with a submodule [client], a plain function
    [run] and a decorated test [check]: the decorator returns a wrapper
    whose [test_fn] attribute is the function the user wrote. *)
Inductive demo_obj : Type :=
| pkg_giskard_hub
| mod_client
| fn_run
| wrapper_check
| inner_check.

Definition demo_getattr (o : demo_obj) (name : string) : outcome demo_obj :=
  match o with
  | pkg_giskard_hub =>
      if decide (name = "client") then Ok mod_client
      else if decide (name = "run") then Ok fn_run
      else if decide (name = "check") then Ok wrapper_check
      else Raised AttributeError
  | wrapper_check =>
      if decide (name = "test_fn") then Ok inner_check
      else Raised AttributeError
  | _ => Raised AttributeError
  end.

Definition demo_format (o : demo_obj) : outcome string :=
  Ok match o with
     | pkg_giskard_hub => "<module 'giskard_hub'>"
     | mod_client => "<module 'giskard_hub.client'>"
     | fn_run => "<function run>"
     | wrapper_check => "<Check object>"
     | inner_check => "<function check>"
     end.

Definition demo_getsourcefile (o : demo_obj) : outcome (option string) :=
  match o with
  | pkg_giskard_hub => Ok (Some "/site/giskard_hub/__init__.py")
  | mod_client => Ok (Some "/site/giskard_hub/client.py")
  | fn_run => Ok (Some "/site/giskard_hub/run.py")
  | wrapper_check => Ok (Some "/site/giskard_hub/registry.py")
  | inner_check => Ok (Some "/site/giskard_hub/checks.py")
  end.

Definition demo_getsourcelines (o : demo_obj) : outcome (list string * Z) :=
  match o with
  | pkg_giskard_hub => Ok (["import client"], 0)
  | mod_client => Ok (["import os"; "x = 1"], 0)
  | fn_run => Ok (["def run():"; "    return 1"], 7)
  | wrapper_check => Ok (["class Check:"; "    test_fn = None"; "    pass"], 10)
  | inner_check =>
      Ok (["@check"; "def check(x):"; "    y = x"; "    z = y"; "    return z"], 100)
  end.

Definition demo_rt : runtime demo_obj :=
  {| sys_modules := {[ "giskard_hub" := pkg_giskard_hub ]};
     getattr := demo_getattr;
     format := demo_format;
     getsourcefile := demo_getsourcefile;
     getsourcelines := demo_getsourcelines |}.

(** The same runtime on an installation where the wrapper is an instance,
    for which [inspect.getsourcelines] raises [TypeError]. *)
Definition demo_rt_instance : runtime demo_obj :=
  {| sys_modules := {[ "giskard_hub" := pkg_giskard_hub ]};
     getattr := demo_getattr;
     format := demo_format;
     getsourcefile := demo_getsourcefile;
     getsourcelines o :=
       match o with
       | wrapper_check => Raised TypeError
       | _ => demo_getsourcelines o
       end |}.

End Linkcode.

Import Linkcode.

(** ** The toctree fragment renderer *)

Module Toctree.

(** A docutils node: its class name, its text and its children.  Parsed
    documents, [addnodes.toctree] declarations and resolved toctrees are
    all nodes. *)
#[warnings="-register-all"] Inductive node : Type :=
| Element (tagname : string) (text : string) (children : list node).

Definition tagname (n : node) : string :=
  match n with Element t _ _ => t end.

Definition text (n : node) : string :=
  match n with Element _ x _ => x end.

Definition children (n : node) : list node :=
  match n with Element _ _ cs => cs end.

(** [n.extend(items)]: appends the items to the children of [n].  Here the
    tree is a value and the extended tree is returned; the update of the
    object where it is, as in the source, is [extend_at] below. *)
Definition extend (n : node) (items : list node) : node :=
  match n with Element t x cs => Element t x (cs ++ items) end.

(** [n.findall(cls)]: the nodes of class [cls] in [n], the node itself
    included, in document order. *)
Fixpoint findall (cls : string) (n : node) : list node :=
  match n with
  | Element t _ cs =>
      (if decide (t = cls) then [n] else []) ++ flat_map (findall cls) cs
  end.

(** The Sphinx application as [toctree_from_doc] uses it; [Env] is the
    state of the build environment, which every operation may read and
    update (documents are loaded on demand). *)
Record application (Env : Type) : Type := Application {
  (** [app.env.get_doctree(docname)] *)
  get_doctree : string → M Env node;
  (** [TocTree(app.env).resolve(docname, app.builder, toctree, prune,
      maxdepth, titles_only, collapse, includehidden)]: a tree or [None] *)
  resolve : string → node → bool → pyval → pyval → pyval → pyval →
            M Env (option node);
  (** [app.builder.render_partial(node)] *)
  render_partial : node → M Env (gmap string string);
}.
Global Arguments get_doctree {Env} _ _.
Global Arguments resolve {Env} _ _ _ _ _ _ _ _.
Global Arguments render_partial {Env} _ _.

Section Renderer.
Context {Env : Type} (app : application Env) (pagename : string).

(** Lines 139-151: the call made for each toctree of the list. *)
Definition resolve_one (kwargs : gmap string pyval) (toctree : node)
  : M Env (option node) :=
  resolve app pagename toctree false
    (dict_get kwargs "maxdepth" (PyInt (-1)))
    (dict_get kwargs "titles_only" (PyBool false))
    (dict_get kwargs "collapse" (PyBool false))
    (dict_get kwargs "includehidden" (PyBool false)).

(** Lines 157-159: [result = resolved[0]], then the loop over
    [resolved[1:]]. *)
Definition merge (first : node) (others : list node) : node :=
  foldl (λ result toctree, extend result (children toctree)) first others.

Definition toctree_from_doc (docname : string) (kwargs : gmap string pyval)
  : M Env string :=
  source_doctree ← get_doctree app docname;
  let toctrees := findall "toctree" source_doctree in
  match toctrees with
  | [] => mret ""
  | _ :: _ =>
      resolved ← mapM (resolve_one kwargs) toctrees;
      let resolved := omap id resolved in
      match resolved with
      | [] => mret ""
      | first :: others =>
          let result := merge first others in
          parts ← render_partial app result;
          getitem parts "fragment"
      end
  end.

End Renderer.

(** *** Recording the calls to the toctree adapter

    [traced app] behaves as [app] and also records, for each call of
    [resolve], the document name and the toctree it was called with. *)
Definition traced_op {Env A} (m : M Env A) (ev : list (string * node))
  : M (Env * list (string * node)) A :=
  λ '(e, log), let '(r, e') := m e in (r, (e', log ++ ev)).

Definition traced {Env} (app : application Env)
  : application (Env * list (string * node)) :=
  {| get_doctree d := traced_op (get_doctree app d) [];
     resolve d t prune md ti co ih :=
       traced_op (resolve app d t prune md ti co ih) [(d, t)];
     render_partial n := traced_op (render_partial app n) [] |}.

(** *** A small site used in the examples

    The environment state is the list of documents loaded so far. *)
Definition demo_doc (docname : string) : option node :=
  if decide (docname = "index") then
    Some (Element "document" "" [
      Element "section" "Guides" [
        Element "toctree" "" [Element "entry" "install" [];
                              Element "entry" "usage" []]];
      Element "section" "Internal" [
        Element "toctree" "hidden" [Element "entry" "secret" []]];
      Element "section" "Reference" [
        Element "toctree" "" [Element "entry" "api" []]]])
  else if decide (docname = "usage") then
    Some (Element "document" "" [Element "paragraph" "How to use it" []])
  else if decide (docname = "changes") then
    Some (Element "document" "" [Element "toctree" "" []])
  else None.

Definition demo_get_doctree (docname : string) : M (list string) node :=
  λ loaded,
    match demo_doc docname with
    | Some doc =>
        (Ok doc, if decide (docname ∈ loaded) then loaded
                 else loaded ++ [docname])
    | None => (Raised OSError, loaded)
    end.

Definition demo_entry (page : string) (entry : node) : node :=
  match entry with
  | Element _ target _ =>
      Element (if decide (target = page) then "current" else "reference")
              target []
  end.

Definition demo_resolve (page : string) (toctree : node) (prune : bool)
    (maxdepth titles_only collapse includehidden : pyval)
  : M (list string) (option node) :=
  mret (match toctree with
        | Element _ kind entries =>
            if decide (entries = []) then None
            else if decide (kind = "hidden") then
              match includehidden with
              | PyBool true =>
                  Some (Element "compact_paragraph" ""
                          (demo_entry page <$> entries))
              | _ => None
              end
            else Some (Element "compact_paragraph" ""
                         (demo_entry page <$> entries))
        end).

Fixpoint demo_html (n : node) : string :=
  match n with
  | Element t x cs =>
      "<" +:+ t +:+ ">" +:+ x
        +:+ foldr (λ c acc, demo_html c +:+ acc) "" cs
        +:+ "</" +:+ t +:+ ">"
  end.

Definition demo_render_partial (n : node) : M (list string) (gmap string string) :=
  mret {[ "fragment" := demo_html n ]}.

Definition demo_app : application (list string) :=
  {| get_doctree := demo_get_doctree;
     resolve := demo_resolve;
     render_partial := demo_render_partial |}.

(** The two visible toctrees of [index], resolved for the page [usage]. *)
Definition demo_guides : node :=
  Element "compact_paragraph" ""
    [Element "reference" "install" []; Element "current" "usage" []].

Definition demo_reference : node :=
  Element "compact_paragraph" "" [Element "reference" "api" []].

End Toctree.

Import Toctree.

(** ** Notions used in the statements *)

(** [sep] occurs in [s]. *)
Definition occurs (sep s : string) : Prop :=
  ∃ a b, s = a +:+ sep +:+ b.

(** [s = a ++ sep ++ b] and no occurrence of [sep] in [s] starts further to
    the right. *)
Definition last_occurrence (sep s a b : string) : Prop :=
  s = a +:+ sep +:+ b ∧
  ∀ a' b', s = a' +:+ sep +:+ b' → (String.length a' ≤ String.length a)%nat.

(** No proper non-empty prefix of [sep] is also a suffix of it, so two
    occurrences of [sep] never overlap. *)
Definition border_free (sep : string) : Prop :=
  ∀ x y z, sep = x +:+ y → sep = y +:+ z → x = "" ∨ y = "".

(** The last element of [s.split(String c sep)]. *)
Definition last_piece (c : ascii) (sep s : string) : string :=
  default s (last (split_on c sep s)).

(** Line 220: [fn.split("giskard_hub")[-1]]. *)
Definition after_marker (fn : string) : string :=
  last_piece "g" "iskard_hub" fn.


(** A [print] that takes every text it is given, in every state. *)
Definition never_raises {S} (print : string → M S ()) : Prop :=
  ∀ text st, (print text st).1 = Ok ().


(** The value a statement ends with, when run in state [s]. *)
Definition result {S A} (m : M S A) (s : S) : outcome A := (m s).1.

(** The symbol reference [(modname, fullname)] resolves to [obj]: the module
    is loaded and the loop of lines 185-194 ends on [obj]. *)
Definition resolves_to {Obj} (rt : runtime Obj) (modname fullname : string)
    (obj : Obj) : Prop :=
  ∃ submod,
    sys_modules rt !! modname = Some submod ∧
    result (walk rt submod (split_on "." "" fullname)) [] = Ok (Some obj).

(** The source file of [obj] is introspected as [fn]: the inspected object
    is [target] and [inspect.getsourcefile] gives the non-empty name [fn]. *)
Definition has_source_file {Obj} (rt : runtime Obj) (obj target : Obj)
    (fn : string) : Prop :=
  inspected rt obj = Ok target ∧
  getsourcefile rt target = Ok (Some fn) ∧
  fn ≠ "".

(** The fixed prefix of every link, line 223. *)
Definition url_prefix : string :=
  "https://github.com/Giskard-AI/giskard-hub/blob/main/src/giskard_hub".



(** *** The values [linkcode_resolve] computes, without the printing *)

Section Values.
Context {Obj : Type} (rt : runtime Obj).

(** The object the loop of lines 185-194 ends on, [None] when it
    returns. *)
Fixpoint walked (obj : Obj) (parts : list string) : option Obj :=
  match parts with
  | [] => Some obj
  | part :: parts' =>
      match getattr rt obj part with
      | Ok obj' =>
          match format rt obj' with
          | Ok _ => walked obj' parts'
          | Raised _ => None
          end
      | Raised _ => None
      end
  end.

(** [fn] after lines 196-202. *)
Definition file_of (obj : Obj) : option string :=
  match inspected rt obj with
  | Ok target =>
      match getsourcefile rt target with
      | Ok fn => fn
      | Raised _ => None
      end
  | Raised _ => None
  end.

(** [(source, lineno)] after lines 209-212. *)
Definition lines_of (obj : Obj) : option (list string * Z) :=
  match getsourcelines rt obj with
  | Ok sl => Some sl
  | Raised _ => None
  end.

(** The value returned by lines 196-223 for the object [obj]. *)
Definition link_of (obj : Obj) : option string :=
  match file_of obj with
  | None | Some EmptyString => None
  | Some fn =>
      Some (url_prefix +:+ after_marker fn +:+ linespec_of (lines_of obj))
  end.

(** The value returned by the whole function. *)
Definition link (domain modname fullname : string) : option string :=
  if decide (domain ≠ "py") then None
  else
    submod ← sys_modules rt !! modname;
    obj ← walked submod (split_on "." "" fullname);
    link_of obj.

End Values.

(** ** The renderer with the resolved trees as objects

    In [toctree_from_doc] a resolved tree is a value.  In the source it is
    an object, and line 159 extends the object [result] where it is.  Below
    the objects live in a store, a table of nodes in the order of their
    creation, and a reference is an index of the table.  The adapter builds
    the tree it returns anew at each call (it copies the entries it
    collects into a new node), so the tree it returns is a new object; the
    source document is only read. *)

(** A reference to a node object. *)
Abbreviation loc := nat (only parsing).

(** A statement of the application, run in a world made of its environment
    and of the object store. *)
Definition in_env {Env A} (m : M Env A) : M (Env * list node) A :=
  λ '(e, h), let '(r, e') := m e in (r, (e', h)).

(** A statement on the object store alone. *)
Definition in_store {Env A} (m : M (list node) A) : M (Env * list node) A :=
  λ '(e, h), let '(r, h') := m h in (r, (e, h')).

(** The creation of the object of a node. *)
Definition new_object (n : node) : M (list node) loc :=
  λ h, (Ok (length h), h ++ [n]).

(** The node a reference points to.  A reference that points to nothing
    does not exist in Python; the model raises on it. *)
Definition node_at (l : loc) : M (list node) node :=
  λ h, match h !! l with
       | Some n => (Ok n, h)
       | None => (Raised OtherError, h)
       end.

(** [result.extend(items)], line 159: the object is updated in place. *)
Definition extend_at (l : loc) (items : list node) : M (list node) () :=
  λ h, match h !! l with
       | Some n => (Ok (), <[l := extend n items]> h)
       | None => (Raised OtherError, h)
       end.

Section ObjectRenderer.
Context {Env : Type} (app : application Env) (pagename : string).

(** Lines 139-151, for one toctree: the tree the adapter built is a new
    object. *)
Definition resolve_object (kwargs : gmap string pyval) (toctree : node)
  : M (Env * list node) (option loc) :=
  r ← in_env (resolve_one app pagename kwargs toctree);
  match r with
  | Some tree =>
      l ← in_store (new_object tree);
      mret (Some l)
  | None => mret None
  end.

(** Lines 158-159: the loop over [resolved[1:]]. *)
Fixpoint extend_all (result : loc) (others : list loc) : M (list node) () :=
  match others with
  | [] => mret ()
  | toctree :: others' =>
      toctree_node ← node_at toctree;
      extend_at result (children toctree_node);;
      extend_all result others'
  end.

(** Lines 128-161 with the resolved trees as objects. *)
Definition toctree_from_doc_objects (docname : string)
    (kwargs : gmap string pyval) : M (Env * list node) string :=
  source_doctree ← in_env (get_doctree app docname);
  let toctrees := findall "toctree" source_doctree in
  match toctrees with
  | [] => mret ""
  | _ :: _ =>
      resolved ← mapM (resolve_object kwargs) toctrees;
      let resolved := omap id resolved in
      match resolved with
      | [] => mret ""
      | result :: others =>
          in_store (extend_all result others);;
          tree ← in_store (node_at result);
          parts ← in_env (render_partial app tree);
          getitem parts "fragment"
      end
  end.

End ObjectRenderer.

(** ** The page-context hook *)

(** What a template finds under a name of the page context: a plain value,
    or a function it calls with a document name and keyword arguments. *)
Inductive ctxval (Env : Type) : Type :=
| CtxValue (v : pyval)
| CtxFunction (f : string → gmap string pyval → M Env string).
Global Arguments CtxValue {Env} v.
Global Arguments CtxFunction {Env} f.

(** Lines 127-163: the handler of the [html-page-context] event.  It defines
    [toctree_from_doc] for the page of the event and stores it in [context],
    the dict of the page, which is the state here. *)
Definition html_page_context {Env} (app : application Env)
    (pagename templatename : string) (doctree : option node)
  : M (gmap string (ctxval Env)) () :=
  λ context,
    (Ok (),
     <["toctree_from_doc" := CtxFunction (toctree_from_doc app pagename)]>
       context).

(** ** Further notions and examples *)

(** [sep.join(l)]. *)
Fixpoint str_join (sep : string) (l : list string) : string :=
  match l with
  | [] => ""
  | x :: l' =>
      match l' with
      | [] => x
      | _ :: _ => x +:+ sep +:+ str_join sep l'
      end
  end.




(** A site whose only document declares one toctree. *)
Definition demo_single_app : application (list string) :=
  {| get_doctree d :=
       mret (Element "document" ""
               [Element "toctree" "" [Element "entry" "api" []]]);
     resolve := demo_resolve;
     render_partial := demo_render_partial |}.

(** ** Strings *)

Section Strings.

(* stdpp blocks the unfolding of string concatenation; the proofs of this
   section go through its equations. *)
Local Arguments String.append !_ _ / : simpl nomatch.

Lemma str_app_nil_r s : s +:+ "" = s.
Proof. induction s as [|c s IH]; simpl; [done | by rewrite IH]. Qed.

Lemma str_app_assoc a b c : (a +:+ b) +:+ c = a +:+ b +:+ c.
Proof. induction a as [|x a IH]; simpl; [done | by rewrite IH]. Qed.

Lemma str_length_app a b :
  String.length (a +:+ b) = (String.length a + String.length b)%nat.
Proof. induction a as [|x a IH]; simpl; [done | by rewrite IH]. Qed.

Lemma str_length_0 s : String.length s = 0%nat → s = "".
Proof. by destruct s. Qed.

(** Two ways of cutting the same string: the shorter left part is a prefix
    of the longer one. *)
Lemma str_app_eq_app a b a' b' :
  a +:+ b = a' +:+ b' →
  (String.length a ≤ String.length a')%nat →
  ∃ x, a' = a +:+ x ∧ b = x +:+ b'.
Proof.
  revert a'. induction a as [|c a IH]; intros a' Heq Hlen; simpl in *.
  - by exists a'.
  - destruct a' as [|c' a']; simpl in *; [lia|].
    injection Heq as -> Heq.
    destruct (IH a' Heq) as (x & -> & ->); [lia|]. by exists x.
Qed.

Lemma str_app_inv_length a b a' b' :
  a +:+ b = a' +:+ b' → String.length a = String.length a' →
  a = a' ∧ b = b'.
Proof.
  intros Heq Hlen.
  destruct (str_app_eq_app a b a' b' Heq) as (x & -> & ->); [lia|].
  rewrite str_length_app in Hlen.
  assert (x = "") as -> by (apply str_length_0; lia).
  by rewrite !str_app_nil_r.
Qed.

Lemma strip_prefix_spec p s r : strip_prefix p s = Some r ↔ s = p +:+ r.
Proof.
  revert s. induction p as [|c p IH]; intros s; simpl.
  - split; [by intros [= ->] | by intros ->].
  - destruct s as [|d s]; [split; discriminate|].
    destruct (Ascii.eqb_spec c d) as [->|Hne].
    + rewrite IH. split; [by intros -> | by intros [= ->]].
    + split; [discriminate | intros [= -> _]; done].
Qed.

Lemma find_Some sep s a b :
  find sep s = Some (a, b) →
  s = a +:+ sep +:+ b ∧
  ∀ a' b', s = a' +:+ sep +:+ b' → (String.length a ≤ String.length a')%nat.
Proof.
  revert a. induction s as [|c s IH]; intros a; simpl.
  - destruct (strip_prefix sep "") as [r|] eqn:Hp; [|discriminate].
    intros [= <- <-]. apply strip_prefix_spec in Hp.
    split; [done | simpl; lia].
  - destruct (strip_prefix sep (String c s)) as [r|] eqn:Hp.
    + intros [= <- <-]. apply strip_prefix_spec in Hp.
      split; [done | simpl; lia].
    + destruct (find sep s) as [[a0 b0]|]; [|discriminate].
      intros [= <- <-]. destruct (IH a0 eq_refl) as [-> Hfirst].
      split; [done|]. intros [|c' a'] b' Heq; simpl in *.
      * apply strip_prefix_spec in Heq. congruence.
      * injection Heq as _ Heq. apply Hfirst in Heq. lia.
Qed.

Lemma find_None sep s : find sep s = None → ¬ occurs sep s.
Proof.
  induction s as [|c s IH]; simpl.
  - destruct (strip_prefix sep "") as [r|] eqn:Hp; [discriminate|].
    intros _ ([|c' a] & b & Heq); simpl in *; [|discriminate].
    apply strip_prefix_spec in Heq. congruence.
  - destruct (strip_prefix sep (String c s)) as [r|] eqn:Hp; [discriminate|].
    destruct (find sep s) as [[a0 b0]|]; [discriminate|].
    intros _ ([|c' a] & b & Heq); simpl in *.
    + apply strip_prefix_spec in Heq. congruence.
    + injection Heq as _ Heq. apply IH; [done|]. by exists a, b.
Qed.

Lemma find_unfold sep s :
  find sep s =
    match strip_prefix sep s with
    | Some rest => Some ("", rest)
    | None =>
        match s with
        | "" => None
        | String c s' =>
            match find sep s' with
            | Some (a, b) => Some (String c a, b)
            | None => None
            end
        end
    end.
Proof. by destruct s. Qed.

Lemma find_occurs sep s : occurs sep s → is_Some (find sep s).
Proof.
  intros (a & b & ->). induction a as [|c a IH]; rewrite find_unfold.
  - assert (strip_prefix sep ("" +:+ sep +:+ b) = Some b) as ->
      by by apply strip_prefix_spec.
    by eexists.
  - destruct (strip_prefix sep _); [by eexists|]. simpl.
    destruct IH as [[a0 b0] ->]. by eexists.
Qed.

Lemma split_on_None c sep s :
  find (String c sep) s = None → split_on c sep s = [s].
Proof.
  intros Hf. funelim (split_on c sep s); [congruence | done].
Qed.

Lemma split_on_Some c sep s a b :
  find (String c sep) s = Some (a, b) →
  split_on c sep s = a :: split_on c sep b.
Proof.
  intros Hf. funelim (split_on c sep s); [|congruence].
  rewrite Hfind in Hf. by injection Hf as -> ->.
Qed.

Lemma find_shorter c sep s a b :
  find (String c sep) s = Some (a, b) →
  (String.length b < String.length s)%nat.
Proof.
  intros [-> _]%find_Some. rewrite !str_length_app. simpl. lia.
Qed.

Lemma split_on_cons c sep s : ∃ x l, split_on c sep s = x :: l.
Proof.
  destruct (find (String c sep) s) as [[a b]|] eqn:Hf.
  - rewrite (split_on_Some _ _ _ _ _ Hf). by eexists _, _.
  - rewrite (split_on_None _ _ _ Hf). by eexists _, _.
Qed.

Lemma last_piece_unfold c sep s :
  last_piece c sep s =
    match find (String c sep) s with
    | Some (_, b) => last_piece c sep b
    | None => s
    end.
Proof.
  unfold last_piece.
  destruct (find (String c sep) s) as [[a b]|] eqn:Hf.
  - rewrite (split_on_Some _ _ _ _ _ Hf).
    destruct (split_on_cons c sep b) as (x & l & ->).
    rewrite last_cons_cons.
    by destruct (last (x :: l)) eqn:Hl; [|apply last_None in Hl].
  - by rewrite (split_on_None _ _ _ Hf).
Qed.

(** Indexing the result of a split with [-1] never raises. *)
Lemma getitem_last_split_on c sep s :
  getitem_last (split_on c sep s) = Ok (last_piece c sep s).
Proof.
  unfold getitem_last, last_piece.
  destruct (split_on_cons c sep s) as (x & l & ->).
  by destruct (last (x :: l)) eqn:Hl; [|apply last_None in Hl].
Qed.

Lemma last_piece_no_occurrence c sep s :
  ¬ occurs (String c sep) s → last_piece c sep s = s.
Proof.
  intros Hno. rewrite last_piece_unfold.
  destruct (find (String c sep) s) as [[a b]|] eqn:Hf; [|done].
  destruct Hno. apply find_Some in Hf as [-> _]. by exists a, b.
Qed.

(** With a border-free separator, the last element of the split is what
    follows the last occurrence of the separator. *)
Lemma last_piece_last_occurrence c sep s a b :
  border_free (String c sep) →
  last_occurrence (String c sep) s a b →
  last_piece c sep s = b.
Proof.
  intros Hbf. remember (S (String.length s)) as n eqn:Hn.
  assert (String.length s < n)%nat as Hlt by lia. clear Hn.
  revert s a Hlt. induction n as [|n IH]; intros s a Hlt [Hs Hlast]; [lia|].
  rewrite last_piece_unfold.
  destruct (find (String c sep) s) as [[a0 b0]|] eqn:Hf; last first.
  { apply find_None in Hf. destruct Hf. by exists a, b. }
  pose proof (find_shorter _ _ _ _ _ Hf) as Hshort.
  apply find_Some in Hf as [Hs0 Hfirst].
  pose proof (Hfirst _ _ Hs) as Hle.
  destruct (decide (String.length a0 = String.length a)) as [Heq|Hne].
  - (* the leftmost occurrence is the last one *)
    assert (a0 = a ∧ String c sep +:+ b0 = String c sep +:+ b) as [-> Hb].
    { apply str_app_inv_length; [congruence | done]. }
    apply (inj (String.append _)) in Hb as ->.
    apply last_piece_no_occurrence. intros (x & y & Hxy).
    specialize (Hlast (a +:+ String c sep +:+ x) y).
    rewrite !str_length_app in Hlast.
    change (String.length (String c sep)) with (S (String.length sep)) in Hlast.
    assert (String.length a + (S (String.length sep) + String.length x)
              ≤ String.length a)%nat; [|lia].
    apply Hlast. by rewrite Hs, Hxy, !str_app_assoc.
  - (* an occurrence further right: it does not overlap the leftmost one *)
    assert (a0 +:+ String c sep +:+ b0 = a +:+ String c sep +:+ b) as Hcut
      by congruence.
    apply str_app_eq_app in Hcut as (x & -> & Hx); [|lia].
    rewrite str_length_app in Hne.
    assert (∃ x', x = String c sep +:+ x' ∧ b0 = x' +:+ String c sep +:+ b)
      as (x' & -> & ->).
    { destruct (decide (String.length (String c sep) ≤ String.length x)%nat)
        as [Hlong|Hshortx].
      { by apply str_app_eq_app in Hx. }
      symmetry in Hx. apply str_app_eq_app in Hx as (y & Hy & Hyb); [|lia].
      pose proof (f_equal String.length Hy) as Hyl.
      rewrite str_length_app in Hyl.
      symmetry in Hyb. apply str_app_eq_app in Hyb as (z & Hz & _); [|lia].
      destruct (Hbf x y z Hy Hz) as [->| ->].
      - simpl in Hne. lia.
      - rewrite str_app_nil_r in Hy. subst x. lia. }
    apply (IH _ x'); [lia|]. split; [done|].
    intros a' b' Hocc.
    specialize (Hlast (a0 +:+ String c sep +:+ a') b').
    rewrite !str_length_app in Hlast.
    assert (String.length a0 + (String.length (String c sep) + String.length a')
            ≤ String.length a0 + (String.length (String c sep) + String.length x'))%nat;
      [|lia].
    apply Hlast. by rewrite Hs0, Hocc, !str_app_assoc.
Qed.

(** An occurrence followed by a text without occurrence is the last one. *)
Lemma last_occurrence_intro sep a b :
  border_free sep → ¬ occurs sep b →
  last_occurrence sep (a +:+ sep +:+ b) a b.
Proof.
  intros Hbf Hno. split; [done|]. intros a' b' Heq.
  destruct (decide (String.length a' ≤ String.length a)%nat) as [|Hgt]; [done|].
  apply str_app_eq_app in Heq as (x & -> & Hx); [|lia].
  rewrite str_length_app in Hgt.
  destruct (decide (String.length sep ≤ String.length x)%nat) as [Hlong|Hshort].
  - apply str_app_eq_app in Hx as (x' & -> & ->); [|done].
    destruct Hno. by exists x', b'.
  - symmetry in Hx. apply str_app_eq_app in Hx as (y & Hy & Hyb); [|lia].
    pose proof (f_equal String.length Hy) as Hyl.
    rewrite str_length_app in Hyl.
    symmetry in Hyb. apply str_app_eq_app in Hyb as (z & Hz & _); [|lia].
    destruct (Hbf x y z Hy Hz) as [->| ->]; simpl in *; lia.
Qed.

Lemma find_None_not_occurs sep s : find sep s = None ↔ ¬ occurs sep s.
Proof.
  split; [apply find_None|]. intros Hno.
  destruct (find sep s) as [[a b]|] eqn:Hf; [|done].
  destruct Hno. apply find_Some in Hf as [-> _]. by exists a, b.
Qed.

Lemma marker_border_free : border_free "giskard_hub".
Proof.
  intros x y z Hx Hy.
  destruct x as [|c x]; [by left|]. right.
  do 11 (simpl in Hx; injection Hx as _ Hx;
         destruct x as [|? x];
         [simpl in Hx; subst y; first [done | by simpl in Hy]|]).
  by simpl in Hx.
Qed.

Example str_split_dotted_name :
  str_split "." "Client.models.list" = Ok ["Client"; "models"; "list"].
Proof. reflexivity. Qed.

Example str_split_empty_name : str_split "." "" = Ok [""].
Proof. reflexivity. Qed.

Example str_split_trailing_dots : str_split "." "a.." = Ok ["a"; ""; ""].
Proof. reflexivity. Qed.

Example str_split_overlapping : str_split "aa" "aaa" = Ok [""; "a"].
Proof. reflexivity. Qed.

Example str_split_empty_separator : str_split "" "abc" = Raised ValueError.
Proof. reflexivity. Qed.

Example after_marker_checkout :
  after_marker "/home/ci/giskard_hub/src/giskard_hub/client.py" = "/client.py".
Proof. reflexivity. Qed.

Example after_marker_elsewhere :
  after_marker "/usr/lib/python3/inspect.py" = "/usr/lib/python3/inspect.py".
Proof. reflexivity. Qed.

Example fmt_d_examples : (fmt_d 120, fmt_d 0, fmt_d (-5)) = ("120", "0", "-5").
Proof. reflexivity. Qed.

End Strings.

(** ** The source-link resolver *)

Section ResolverFacts.
Context {Obj : Type} (rt : runtime Obj).

Lemma run_bind {S A B} (m : M S A) (k : A → M S B) s :
  (m ≫= k) s =
    match m s with
    | (Ok a, s') => k a s'
    | (Raised e, s') => (Raised e, s')
    end.
Proof. done. Qed.

Lemma py_info_module modname fullname :
  py_info modname fullname !! "module" = Some modname.
Proof. done. Qed.

Lemma py_info_fullname modname fullname :
  py_info modname fullname !! "fullname" = Some fullname.
Proof. done. Qed.

Lemma source_file_run {S} obj (st : S) :
  source_file rt obj st = (Ok (file_of rt obj), st).
Proof.
  unfold source_file, file_of, try_except. rewrite run_bind. unfold lift.
  destruct (inspected rt obj) as [target|e]; [|done].
  by destruct (getsourcefile rt target).
Qed.

Lemma source_lines_run {S} obj (st : S) :
  source_lines rt obj st = (Ok (lines_of rt obj), st).
Proof.
  unfold source_lines, lines_of, try_except. rewrite run_bind. unfold lift.
  by destruct (getsourcelines rt obj).
Qed.


Section PrintingFacts.
Context {S : Type} (print : string → M S ()).

Lemma run_print_bind {B} text (k : () → M S B) st :
  never_raises print →
  (print text ≫= k) st = k () (print text st).2.
Proof.
  intros Hp. rewrite run_bind. specialize (Hp text st).
  destruct (print text st) as [[[]|e] st']; simpl in *; [done | discriminate].
Qed.

Lemma walk_step_on_run obj part st :
  never_raises print →
  ∃ st',
    walk_step_on rt print obj part st =
      (Ok match getattr rt obj part with
          | Ok obj' =>
              match format rt obj' with
              | Ok _ => Some obj'
              | Raised _ => None
              end
          | Raised _ => None
          end, st').
Proof.
  intros Hp. unfold walk_step_on, try_except. rewrite run_bind. unfold lift at 1.
  destruct (getattr rt obj part) as [obj'|e];
    [|rewrite run_print_bind by done; by eexists].
  rewrite run_bind. unfold lift at 1.
  destruct (format rt obj') as [shown|e];
    rewrite run_print_bind by done; by eexists.
Qed.

Lemma walk_on_run obj parts st :
  never_raises print →
  ∃ st', walk_on rt print obj parts st = (Ok (walked rt obj parts), st').
Proof.
  intros Hp. revert obj st.
  induction parts as [|part parts IH]; intros obj st.
  - by eexists.
  - simpl. rewrite run_bind.
    destruct (walk_step_on_run obj part st Hp) as [st1 ->].
    destruct (getattr rt obj part) as [obj'|e]; [|by eexists].
    destruct (format rt obj') as [shown|e]; [|by eexists].
    apply IH.
Qed.

(** When [print] takes every text, the function returns [link] and raises
    nothing. *)
Lemma linkcode_resolve_on_run domain modname fullname st :
  never_raises print →
  ∃ st',
    linkcode_resolve_on rt print domain (py_info modname fullname) st
    = (Ok (link rt domain modname fullname), st').
Proof.
  intros Hp. unfold linkcode_resolve_on, link.
  destruct (decide (domain ≠ "py")); [by eexists|].
  rewrite run_bind. unfold getitem at 1, lift at 1.
  rewrite py_info_module.
  rewrite run_bind. unfold getitem at 1, lift at 1.
  rewrite py_info_fullname.
  rewrite !run_print_bind by done.
  destruct (sys_modules rt !! modname) as [submod|];
    [|rewrite run_print_bind by done; by eexists].
  rewrite run_bind. unfold lift at 1, str_split at 1.
  rewrite run_bind. simpl.
  match goal with
  | |- context [walk_on rt print submod ?parts ?st0] =>
      destruct (walk_on_run submod parts st0 Hp) as [st1 ->]
  end.
  destruct (walked rt submod (split_on "." "" fullname)) as [obj|];
    [|by eexists].
  simpl. rewrite run_bind, source_file_run. unfold link_of.
  destruct (file_of rt obj) as [[|c fn]|];
    [rewrite run_print_bind by done; by eexists
    | |rewrite run_print_bind by done; by eexists].
  rewrite run_print_bind by done.
  rewrite run_bind, source_lines_run.
  rewrite run_print_bind by done.
  rewrite run_bind. unfold lift, str_split. cbv beta iota.
  rewrite run_bind, getitem_last_split_on.
  rewrite run_print_bind by done.
  by eexists.
Qed.





End PrintingFacts.

Lemma print_never_raises : never_raises Py.print.
Proof. by intros text st. Qed.

Lemma walk_step_run obj part out :
  ∃ out',
    walk_step rt obj part out =
      (Ok match getattr rt obj part with
          | Ok obj' =>
              match format rt obj' with
              | Ok _ => Some obj'
              | Raised _ => None
              end
          | Raised _ => None
          end, out').
Proof. apply walk_step_on_run, print_never_raises. Qed.

Lemma walk_run obj parts out :
  ∃ out', walk rt obj parts out = (Ok (walked rt obj parts), out').
Proof. apply walk_on_run, print_never_raises. Qed.

(** The printing aside, [linkcode_resolve] returns [link] and never
    raises. *)
Lemma linkcode_resolve_run domain modname fullname out :
  ∃ out',
    linkcode_resolve rt domain (py_info modname fullname) out
    = (Ok (link rt domain modname fullname), out').
Proof. apply linkcode_resolve_on_run, print_never_raises. Qed.

Lemma linkcode_resolve_result domain modname fullname out :
  result (linkcode_resolve rt domain (py_info modname fullname)) out
  = Ok (link rt domain modname fullname).
Proof.
  unfold result.
  by destruct (linkcode_resolve_run domain modname fullname out) as [out' ->].
Qed.

Lemma resolves_to_walked modname fullname obj :
  resolves_to rt modname fullname obj ↔
  ∃ submod, sys_modules rt !! modname = Some submod ∧
            walked rt submod (split_on "." "" fullname) = Some obj.
Proof.
  unfold resolves_to, result.
  split; intros (submod & Hmod & Hwalk); exists submod; split; try done.
  - destruct (walk_run submod (split_on "." "" fullname) []) as [out' Hrun].
    rewrite Hrun in Hwalk. simpl in Hwalk. congruence.
  - destruct (walk_run submod (split_on "." "" fullname) []) as [out' ->].
    simpl. congruence.
Qed.






End ResolverFacts.

(** ** Properties of [linkcode_resolve] *)

Section ResolverClaims.
Context {Obj : Type} (rt : runtime Obj).






End ResolverClaims.

(** *** On the example runtime *)



Lemma demo_resolves_check :
  resolves_to demo_rt "giskard_hub" "check" wrapper_check.
Proof. exists pkg_giskard_hub. split; reflexivity. Defined.


(** C1.  [check] is a wrapper whose [test_fn] is a function defined in
    [checks.py], lines 100 to 104; the wrapper itself is defined in
    [registry.py], lines 10 to 12.  The link points to the file of the
    inner function but carries the lines of the wrapper; and where the
    lines of the wrapper cannot be read, it carries no lines at all. *)
Theorem linkcode_resolve_test_fn_lines :
  resolves_to demo_rt "giskard_hub" "check" wrapper_check ∧
  inspected demo_rt wrapper_check = Ok inner_check ∧
  getsourcefile demo_rt inner_check = Ok (Some "/site/giskard_hub/checks.py") ∧
  (∃ source,
     getsourcelines demo_rt inner_check = Ok (source, 100) ∧
     length source = 5%nat) ∧
  result (linkcode_resolve demo_rt "py" (py_info "giskard_hub" "check")) []
  = Ok (Some "https://github.com/Giskard-AI/giskard-hub/blob/main/src/giskard_hub/checks.py#L10-L12") ∧
  result (linkcode_resolve demo_rt_instance "py"
            (py_info "giskard_hub" "check")) []
  = Ok (Some "https://github.com/Giskard-AI/giskard-hub/blob/main/src/giskard_hub/checks.py").
Proof.
  split; [apply demo_resolves_check|].
  repeat split; try reflexivity.
  eexists. split; reflexivity.
Qed.








(** ** The toctree fragment renderer *)

Section RendererFacts.
Context {Env : Type} (app : application Env).

Lemma mapM_cons_run {S A B} (f : A → M S B) x l s :
  mapM f (x :: l) s =
    match f x s with
    | (Ok y, s1) =>
        match mapM f l s1 with
        | (Ok k, s2) => (Ok (y :: k), s2)
        | (Raised e, s2) => (Raised e, s2)
        end
    | (Raised e, s1) => (Raised e, s1)
    end.
Proof.
  simpl. rewrite run_bind. destruct (f x s) as [[y|e] s1]; [|done].
  rewrite run_bind. by destruct (mapM f l s1) as [[k|e] s2].
Qed.

(** The loop of lines 157-159 appends the children of the other trees, one
    tree after the other, to those of the first. *)
Lemma merge_children first others :
  merge first others =
    Element (tagname first) (text first)
            (children first ++ concat (children <$> others)).
Proof.
  unfold merge. revert first.
  induction others as [|t others IH]; intros [tag x cs]; simpl.
  - by rewrite app_nil_r.
  - rewrite IH. simpl. by rewrite <- app_assoc.
Qed.



Lemma toctree_from_doc_run {E} (a : application E) pagename docname kwargs e :
  toctree_from_doc a pagename docname kwargs e =
    match get_doctree a docname e with
    | (Raised err, e1) => (Raised err, e1)
    | (Ok doc, e1) =>
        match findall "toctree" doc with
        | [] => (Ok "", e1)
        | _ :: _ =>
            match mapM (resolve_one a pagename kwargs)
                       (findall "toctree" doc) e1 with
            | (Raised err, e2) => (Raised err, e2)
            | (Ok rs, e2) =>
                match omap id rs with
                | [] => (Ok "", e2)
                | first :: others =>
                    (parts ← render_partial a (merge first others);
                     getitem parts "fragment") e2
                end
            end
        end
    end.
Proof.
  unfold toctree_from_doc. rewrite run_bind.
  destruct (get_doctree a docname e) as [[doc|err] e1]; [|done].
  destruct (findall "toctree" doc) as [|t ts]; [done|].
  rewrite run_bind.
  destruct (mapM (resolve_one a pagename kwargs) (t :: ts) e1)
    as [[rs|err] e2]; [|done].
  by destruct (omap id rs).
Qed.

Lemma omap_id_all_None {A} (rs : list (option A)) :
  Forall (λ r, r = None) rs → omap id rs = [].
Proof. induction 1 as [|r rs -> _ IH]; [done | by simpl]. Qed.


End RendererFacts.

(** ** Properties of [toctree_from_doc] *)

Section RendererClaims.
Context {Env : Type} (app : application Env).


(** C4.  When the declarations resolve to at least two trees, the
    fragment is the rendering of one tree: the first resolved tree, with
    the children of each following resolved tree appended to its own, in
    the order of the declarations. *)
Theorem toctree_from_doc_merges pagename docname kwargs e doc e1 rs e2
    first second others :
  get_doctree app docname e = (Ok doc, e1) →
  mapM (resolve_one app pagename kwargs) (findall "toctree" doc) e1
    = (Ok rs, e2) →
  omap id rs = first :: second :: others →
  toctree_from_doc app pagename docname kwargs e
  = (parts ← render_partial app
               (Element (tagname first) (text first)
                  (children first
                     ++ concat (children <$> second :: others)));
     getitem parts "fragment") e2.
Proof.
  intros Hdoc Hres Hsome.
  rewrite toctree_from_doc_run, Hdoc.
  destruct (findall "toctree" doc) as [|t ts].
  { simpl in Hres. injection Hres as <- _. done. }
  by rewrite Hres, Hsome, merge_children.
Qed.

(** C5.  When the source document has no toctree node, and when every
    one of its toctrees is resolved to [None], the renderer returns the
    empty string and raises nothing. *)
Theorem toctree_from_doc_empty pagename docname kwargs e doc e1 :
  get_doctree app docname e = (Ok doc, e1) →
  (findall "toctree" doc = [] ∨
   ∃ rs e2,
     mapM (resolve_one app pagename kwargs) (findall "toctree" doc) e1
       = (Ok rs, e2) ∧
     Forall (λ r, r = None) rs) →
  result (toctree_from_doc app pagename docname kwargs) e = Ok "".
Proof.
  intros Hdoc Hnone. unfold result.
  rewrite toctree_from_doc_run, Hdoc.
  destruct Hnone as [-> | (rs & e2 & Hres & Hall)]; [done|].
  destruct (findall "toctree" doc); [done|].
  by rewrite Hres, (omap_id_all_None _ Hall).
Qed.

End RendererClaims.

(** *** On the example site *)

Lemma demo_index_doctree :
  ∃ doc, get_doctree demo_app "index" [] = (Ok doc, ["index"]) ∧
         mapM (resolve_one demo_app "usage" ∅) (findall "toctree" doc) ["index"]
         = (Ok [Some demo_guides; None; Some demo_reference], ["index"]).
Proof. eexists. split; reflexivity. Defined.

Lemma toctree_from_doc_merges_witness :
  toctree_from_doc demo_app "usage" "index" ∅ []
  = (Ok "<compact_paragraph><reference>install</reference><current>usage</current><reference>api</reference></compact_paragraph>",
     ["index"]).
Proof.
  destruct demo_index_doctree as (doc & Hdoc & Hres).
  rewrite (toctree_from_doc_merges demo_app "usage" "index" ∅ [] doc ["index"]
             [Some demo_guides; None; Some demo_reference] ["index"]
             demo_guides demo_reference [] Hdoc Hres eq_refl).
  reflexivity.
Defined.

Lemma toctree_from_doc_empty_witness :
  result (toctree_from_doc demo_app "index" "usage" ∅) [] = Ok "" ∧
  result (toctree_from_doc demo_app "index" "changes" ∅) [] = Ok "".
Proof.
  split.
  - eapply (toctree_from_doc_empty demo_app "index" "usage" ∅ []);
      [reflexivity|]. left. reflexivity.
  - eapply (toctree_from_doc_empty demo_app "index" "changes" ∅ []);
      [reflexivity|]. right. exists [None], ["changes"].
    split; [reflexivity|]. repeat constructor.
Defined.

(** ** More on [str.split] *)

Section SplitFacts.

(** The last element of a split is the end of the string and holds no
    separator. *)
Lemma last_piece_suffix c sep s :
  ∃ pre, s = pre +:+ last_piece c sep s ∧
         ¬ occurs (String c sep) (last_piece c sep s).
Proof.
  remember (S (String.length s)) as n eqn:Hn.
  assert (String.length s < n)%nat as Hlt by lia. clear Hn.
  revert s Hlt. induction n as [|n IH]; intros s Hlt; [lia|].
  rewrite last_piece_unfold.
  destruct (find (String c sep) s) as [[a b]|] eqn:Hf.
  - pose proof (find_shorter _ _ _ _ _ Hf) as Hshort.
    apply find_Some in Hf as [-> _].
    destruct (IH b) as (pre & Hb & Hno); [lia|].
    exists (a +:+ String c sep +:+ pre). split; [|done].
    rewrite !str_app_assoc. by rewrite <- Hb.
  - exists "". split; [done | by apply find_None].
Qed.

(** The text before the leftmost occurrence holds no separator. *)
Lemma find_before_free c sep s a b :
  find (String c sep) s = Some (a, b) → ¬ occurs (String c sep) a.
Proof.
  intros [-> Hfirst]%find_Some (x & y & ->).
  specialize (Hfirst x (y +:+ String c sep +:+ b)).
  rewrite !str_length_app in Hfirst.
  change (String.length (String c sep)) with (S (String.length sep)) in Hfirst.
  assert (String.length x + (S (String.length sep) + String.length y)
          ≤ String.length x)%nat; [|lia].
  apply Hfirst. by rewrite !str_app_assoc.
Qed.

Lemma str_join_cons sep x y l :
  str_join sep (x :: y :: l) = x +:+ sep +:+ str_join sep (y :: l).
Proof. done. Qed.

(** X6.  Splitting loses nothing: the parts of [s.split(sep)], joined by
    [sep], are [s] again; there is at least one part, and no part contains
    the separator. *)
Theorem str_split_join sep s parts :
  str_split sep s = Ok parts →
  str_join sep parts = s ∧
  parts ≠ [] ∧
  Forall (λ part, ¬ occurs sep part) parts.
Proof.
  destruct sep as [|c sep]; [discriminate|]. simpl. intros [= <-].
  remember (S (String.length s)) as n eqn:Hn.
  assert (String.length s < n)%nat as Hlt by lia. clear Hn.
  revert s Hlt. induction n as [|n IH]; intros s Hlt; [lia|].
  destruct (find (String c sep) s) as [[a b]|] eqn:Hf.
  - rewrite (split_on_Some _ _ _ _ _ Hf).
    pose proof (find_shorter _ _ _ _ _ Hf) as Hshort.
    pose proof (find_before_free _ _ _ _ _ Hf) as Hfree.
    apply find_Some in Hf as [-> _].
    destruct (IH b) as (Hjoin & Hne & Hall); [lia|].
    destruct (split_on c sep b) as [|y l] eqn:Hb; [done|].
    rewrite str_join_cons, Hjoin. repeat split; [done|].
    by constructor.
  - rewrite (split_on_None _ _ _ Hf). repeat split; [done|].
    constructor; [by apply find_None | constructor].
Qed.

Lemma last_occurrence_shift sep p t x b :
  last_occurrence sep t x b →
  last_occurrence sep (p +:+ t) (p +:+ x) b.
Proof.
  intros [-> Hlast]. split; [by rewrite str_app_assoc|].
  intros a' b' Heq. rewrite str_length_app.
  destruct (decide (String.length p ≤ String.length a')%nat) as [Hle|]; [|lia].
  apply str_app_eq_app in Heq as (y & -> & Hy); [|done].
  rewrite str_length_app. apply Hlast in Hy. lia.
Qed.

Lemma last_occurrence_exists c sep s :
  border_free (String c sep) →
  occurs (String c sep) s →
  ∃ a b, last_occurrence (String c sep) s a b.
Proof.
  intros Hbf. remember (S (String.length s)) as n eqn:Hn.
  assert (String.length s < n)%nat as Hlt by lia. clear Hn.
  revert s Hlt. induction n as [|n IH]; intros s Hlt Hocc; [lia|].
  destruct (find_occurs _ _ Hocc) as [[a0 b0] Hf].
  pose proof (find_shorter _ _ _ _ _ Hf) as Hshort.
  apply find_Some in Hf as [-> _].
  destruct (find (String c sep) b0) as [[a1 b1]|] eqn:Hf0.
  - destruct (IH b0) as (x & b & Hlast); [lia | |].
    { apply find_Some in Hf0 as [-> _]. by exists a1, b1. }
    exists (a0 +:+ String c sep +:+ x), b.
    rewrite <- (str_app_assoc a0 (String c sep) b0).
    rewrite <- (str_app_assoc a0 (String c sep) x).
    by apply last_occurrence_shift.
  - exists a0, b0. apply last_occurrence_intro; [done | by apply find_None].
Qed.

(** X13.  A file name that contains ["giskard_hub"] has a last occurrence
    of it, and what line 220 keeps is the text after that occurrence. *)
Theorem after_marker_last_occurrence fn :
  occurs "giskard_hub" fn →
  ∃ a b, last_occurrence "giskard_hub" fn a b ∧ after_marker fn = b.
Proof.
  intros Hocc.
  destruct (last_occurrence_exists "g" "iskard_hub" fn marker_border_free Hocc)
    as (a & b & Hlast).
  exists a, b. split; [done|].
  by apply (last_piece_last_occurrence _ _ _ a _ marker_border_free).
Qed.

End SplitFacts.

(** ** More on [linkcode_resolve] *)

Section ResolverExtras.
Context {Obj : Type} (rt : runtime Obj).

(** X1.  For a domain other than ["py"] the function returns [None] at once:
    it prints nothing and does not look into [info], whatever keys [info]
    has. *)
Theorem linkcode_resolve_other_domain domain info out :
  domain ≠ "py" →
  linkcode_resolve rt domain info out = (Ok None, out).
Proof.
  intros Hne. unfold linkcode_resolve, linkcode_resolve_on.
  by rewrite decide_True.
Qed.

(** X2.  For the domain ["py"], [info] is read with subscripts: when the key
    ["module"] or the key ["fullname"] is missing the function raises
    [KeyError], before anything is printed. *)
Theorem linkcode_resolve_missing_key info out :
  info !! "module" = None ∨ info !! "fullname" = None →
  linkcode_resolve rt "py" info out = (Raised KeyError, out).
Proof.
  intros Hmiss. unfold linkcode_resolve, linkcode_resolve_on.
  rewrite decide_False by (by intros []).
  rewrite run_bind. unfold getitem at 1, lift at 1.
  destruct (info !! "module") as [modname|]; [|done].
  destruct Hmiss as [|Hfull]; [done|].
  rewrite run_bind. unfold getitem at 1, lift at 1.
  by rewrite Hfull.
Qed.







Lemma file_of_has_source_file obj fn :
  file_of rt obj = Some fn → fn ≠ "" →
  ∃ target, has_source_file rt obj target fn.
Proof.
  unfold file_of, has_source_file. intros Hfile Hne.
  destruct (inspected rt obj) as [target|]; [|done].
  destruct (getsourcefile rt target) as [r|] eqn:Hr; [|done].
  exists target. by subst r.
Qed.

(** X5.  A URL is returned only for the domain ["py"] and a symbol that
    resolves to an object with a source file; it is the fixed prefix, then
    an end of the file name that contains no ["giskard_hub"], then the line
    range computed for the object. *)
Theorem linkcode_resolve_link_origin domain modname fullname out url :
  result (linkcode_resolve rt domain (py_info modname fullname)) out
  = Ok (Some url) →
  domain = "py" ∧
  ∃ obj target fn dir path,
    resolves_to rt modname fullname obj ∧
    has_source_file rt obj target fn ∧
    fn = dir +:+ path ∧
    ¬ occurs "giskard_hub" path ∧
    url = url_prefix +:+ path +:+ linespec_of (lines_of rt obj).
Proof.
  rewrite linkcode_resolve_result. unfold link.
  destruct (decide (domain ≠ "py")) as [|Hpy]; [done|].
  apply dec_stable in Hpy.
  destruct (sys_modules rt !! modname) as [submod|] eqn:Hmod; [|done].
  simpl.
  destruct (walked rt submod (split_on "." "" fullname)) as [obj|] eqn:Hwalk;
    [|done].
  simpl. unfold link_of.
  destruct (file_of rt obj) as [[|c fn]|] eqn:Hfile; [done| |done].
  intros [= <-]. split; [done|].
  destruct (file_of_has_source_file obj _ Hfile) as [target Htarget]; [done|].
  destruct (last_piece_suffix "g" "iskard_hub" (String c fn))
    as (dir & Hdir & Hfree).
  exists obj, target, (String c fn), dir, (after_marker (String c fn)).
  split; [|done]. apply resolves_to_walked. by exists submod.
Qed.



End ResolverExtras.

(** ** More on [toctree_from_doc] *)

Section RendererExtras.
Context {Env : Type} (app : application Env).




(** X8.  When the source document cannot be loaded, the exception of
    [get_doctree] is what the renderer raises; the toctree adapter is not
    called. *)
Theorem toctree_from_doc_missing_document pagename docname kwargs e err e1 log :
  get_doctree app docname e = (Raised err, e1) →
  toctree_from_doc app pagename docname kwargs e = (Raised err, e1) ∧
  toctree_from_doc (traced app) pagename docname kwargs (e, log)
  = (Raised err, (e1, log)).
Proof.
  intros Hdoc. rewrite !toctree_from_doc_run. simpl. unfold traced_op.
  rewrite Hdoc. by rewrite app_nil_r.
Qed.

(** X9.  Of the keyword arguments only [maxdepth], [titles_only],
    [collapse] and [includehidden] are read, each with its default: two
    calls whose keyword arguments give the same four values, as written or
    by default, do the same, whatever else is passed. *)
Theorem toctree_from_doc_options pagename docname kwargs kwargs' e :
  dict_get kwargs "maxdepth" (PyInt (-1))
    = dict_get kwargs' "maxdepth" (PyInt (-1)) →
  dict_get kwargs "titles_only" (PyBool false)
    = dict_get kwargs' "titles_only" (PyBool false) →
  dict_get kwargs "collapse" (PyBool false)
    = dict_get kwargs' "collapse" (PyBool false) →
  dict_get kwargs "includehidden" (PyBool false)
    = dict_get kwargs' "includehidden" (PyBool false) →
  toctree_from_doc app pagename docname kwargs e
  = toctree_from_doc app pagename docname kwargs' e.
Proof.
  intros Hmaxdepth Htitles Hcollapse Hhidden.
  rewrite !toctree_from_doc_run.
  assert (resolve_one app pagename kwargs = resolve_one app pagename kwargs')
    as ->; [|done].
  unfold resolve_one. by rewrite Hmaxdepth, Htitles, Hcollapse, Hhidden.
Qed.

(** X10.  When exactly one declaration resolves to a tree, that tree is
    rendered as it is, wherever the declarations resolved to [None] stand
    around it. *)
Theorem toctree_from_doc_single pagename docname kwargs e doc e1 rs e2 only :
  get_doctree app docname e = (Ok doc, e1) →
  mapM (resolve_one app pagename kwargs) (findall "toctree" doc) e1
    = (Ok rs, e2) →
  omap id rs = [only] →
  toctree_from_doc app pagename docname kwargs e
  = (parts ← render_partial app only; getitem parts "fragment") e2.
Proof.
  intros Hdoc Hres Hone.
  rewrite toctree_from_doc_run, Hdoc.
  destruct (findall "toctree" doc) as [|t ts].
  { simpl in Hres. injection Hres as <- _. done. }
  by rewrite Hres, Hone.
Qed.


(** X12.  The handler of [html-page-context] leaves every other entry of the
    page context as it is and never raises; after the events of two pages on
    the same context, the entry [toctree_from_doc] is the renderer of the
    second page. *)
Theorem html_page_context_last_page pagename templatename doctree
    pagename' templatename' doctree' context :
  ∃ context',
    (html_page_context app pagename templatename doctree;;
     html_page_context app pagename' templatename' doctree') context
    = (Ok (), context') ∧
    context' !! "toctree_from_doc"
    = Some (CtxFunction (toctree_from_doc app pagename')) ∧
    (∀ key, key ≠ "toctree_from_doc" → context' !! key = context !! key).
Proof.
  eexists. split; [reflexivity|]. split.
  - apply lookup_insert_eq.
  - intros key Hkey. by rewrite !lookup_insert_ne.
Qed.

End RendererExtras.

(** *** The further properties on the examples *)

Lemma str_split_join_witness :
  str_split "." "a..b" = Ok ["a"; ""; "b"] ∧
  str_join "." ["a"; ""; "b"] = "a..b" ∧
  ["a"; ""; "b"] ≠ [] ∧
  Forall (λ part, ¬ occurs "." part) ["a"; ""; "b"].
Proof.
  split; [reflexivity|].
  apply (str_split_join "." "a..b" ["a"; ""; "b"]). reflexivity.
Defined.

Lemma linkcode_resolve_other_domain_witness :
  "c" ≠ "py" ∧
  linkcode_resolve demo_rt "c" ∅ ["earlier"] = (Ok None, ["earlier"]).
Proof.
  split; [discriminate|].
  apply (linkcode_resolve_other_domain demo_rt "c" ∅ ["earlier"]).
  discriminate.
Defined.

Lemma linkcode_resolve_missing_key_witness :
  linkcode_resolve demo_rt "py" {[ "module" := "giskard_hub" ]} []
  = (Raised KeyError, []).
Proof.
  apply (linkcode_resolve_missing_key demo_rt {[ "module" := "giskard_hub" ]} []).
  right. reflexivity.
Defined.




Lemma linkcode_resolve_link_origin_witness :
  "py" = "py" ∧
  ∃ obj target fn dir path,
    resolves_to demo_rt "giskard_hub" "run" obj ∧
    has_source_file demo_rt obj target fn ∧
    fn = dir +:+ path ∧
    ¬ occurs "giskard_hub" path ∧
    "https://github.com/Giskard-AI/giskard-hub/blob/main/src/giskard_hub/run.py#L7-L8"
    = url_prefix +:+ path +:+ linespec_of (lines_of demo_rt obj).
Proof.
  apply (linkcode_resolve_link_origin demo_rt "py" "giskard_hub" "run" []).
  reflexivity.
Defined.


Lemma toctree_from_doc_missing_document_witness :
  get_doctree demo_app "nope" ["index"] = (Raised OSError, ["index"]) ∧
  toctree_from_doc demo_app "usage" "nope" ∅ ["index"]
  = (Raised OSError, ["index"]) ∧
  toctree_from_doc (traced demo_app) "usage" "nope" ∅ (["index"], [])
  = (Raised OSError, (["index"], [])).
Proof.
  split; [reflexivity|].
  apply (toctree_from_doc_missing_document demo_app "usage" "nope" ∅
           ["index"] OSError ["index"] []).
  reflexivity.
Defined.

Lemma toctree_from_doc_options_witness :
  toctree_from_doc demo_app "usage" "index" ∅ []
  = toctree_from_doc demo_app "usage" "index"
      {[ "max_depth" := PyInt 1; "include_hidden" := PyBool true;
         "collapse" := PyBool false ]} [].
Proof.
  apply (toctree_from_doc_options demo_app "usage" "index" ∅
           {[ "max_depth" := PyInt 1; "include_hidden" := PyBool true;
              "collapse" := PyBool false ]} []); reflexivity.
Defined.

Lemma toctree_from_doc_single_witness :
  toctree_from_doc demo_single_app "usage" "index" ∅ []
  = (Ok "<compact_paragraph><reference>api</reference></compact_paragraph>", []).
Proof.
  rewrite (toctree_from_doc_single demo_single_app "usage" "index" ∅ []
             (Element "document" ""
                [Element "toctree" "" [Element "entry" "api" []]])
             [] [Some demo_reference] [] demo_reference
             eq_refl eq_refl eq_refl).
  reflexivity.
Defined.


Lemma after_marker_last_occurrence_witness :
  ∃ a b,
    last_occurrence "giskard_hub"
      "/home/ci/giskard_hub/src/giskard_hub/client.py" a b ∧
    after_marker "/home/ci/giskard_hub/src/giskard_hub/client.py" = b.
Proof.
  apply (after_marker_last_occurrence
           "/home/ci/giskard_hub/src/giskard_hub/client.py").
  by exists "/home/ci/", "/src/giskard_hub/client.py".
Defined.

(** ** The renderer with the resolved trees as objects *)

Section ObjectRendererFacts.
Context {Env : Type} (app : application Env) (pagename : string).

Lemma in_env_run {A} (m : M Env A) e (h : list node) :
  in_env m (e, h) = ((m e).1, ((m e).2, h)).
Proof. unfold in_env. by destruct (m e). Qed.

Lemma in_store_run {A} (m : M (list node) A) (e : Env) h :
  in_store m (e, h) = ((m h).1, (e, (m h).2)).
Proof. unfold in_store. by destruct (m h). Qed.

Lemma resolve_object_run kwargs toctree e h :
  resolve_object app pagename kwargs toctree (e, h) =
    match resolve_one app pagename kwargs toctree e with
    | (Ok (Some tree), e1) => (Ok (Some (length h)), (e1, h ++ [tree]))
    | (Ok None, e1) => (Ok None, (e1, h))
    | (Raised err, e1) => (Raised err, (e1, h))
    end.
Proof.
  unfold resolve_object. rewrite run_bind, in_env_run.
  destruct (resolve_one app pagename kwargs toctree e) as [[[tree|]|err] e1];
    cbn [fst snd]; [|done..].
  by rewrite run_bind, in_store_run.
Qed.

(** The list comprehension with objects follows the one with values: same
    exception and environment; on a normal end the references point to the
    trees of the values, they are new and differ from one another, and the
    objects that existed before are as they were. *)
Lemma resolve_objects_run kwargs toctrees e h :
  match mapM (resolve_one app pagename kwargs) toctrees e with
  | (Ok rs, e') =>
      ∃ ls h',
        mapM (resolve_object app pagename kwargs) toctrees (e, h)
        = (Ok ls, (e', h')) ∧
        h `prefix_of` h' ∧
        Forall2 (λ tree l, h' !! l = Some tree) (omap id rs) (omap id ls) ∧
        Forall (λ l, (length h ≤ l)%nat) (omap id ls) ∧
        NoDup (omap id ls)
  | (Raised err, e') =>
      ∃ h',
        mapM (resolve_object app pagename kwargs) toctrees (e, h)
        = (Raised err, (e', h')) ∧
        h `prefix_of` h'
  end.
Proof.
  revert e h. induction toctrees as [|t ts IH]; intros e h.
  - simpl. exists [], h. repeat split; [done | constructor..].
  - rewrite !mapM_cons_run, resolve_object_run.
    destruct (resolve_one app pagename kwargs t e) as [[[tree|]|err] e1].
    + (* a tree: a new object *)
      specialize (IH e1 (h ++ [tree])).
      destruct (mapM (resolve_one app pagename kwargs) ts e1)
        as [[rs|err] e2].
      * destruct IH as (ls & h' & -> & Hpre & Hat & Hnew & Hdup).
        exists (Some (length h) :: ls), h'. simpl.
        split; [done|]. split; [by etrans; [apply prefix_app_r|]|].
        split; [|split].
        -- constructor; [|done].
           eapply prefix_lookup_Some; [|done].
           by apply list_lookup_middle.
        -- constructor; [done|].
           eapply Forall_impl; [exact Hnew|]. intros l. simpl.
           rewrite length_app. simpl. lia.
        -- constructor; [|done]. intros Hin.
           eapply Forall_forall in Hnew; [|done].
           rewrite length_app in Hnew. simpl in Hnew. lia.
      * destruct IH as (h' & -> & Hpre).
        exists h'. split; [done|]. by etrans; [apply prefix_app_r|].
    + (* no tree *)
      specialize (IH e1 h).
      destruct (mapM (resolve_one app pagename kwargs) ts e1)
        as [[rs|err] e2].
      * destruct IH as (ls & h' & -> & Hpre & Hat & Hnew & Hdup).
        by exists (None :: ls), h'.
      * destruct IH as (h' & -> & Hpre). by exists h'.
    + by exists h.
Qed.

(** The loop of lines 158-159 on objects leaves in [result] the merge of
    the trees, and changes no other object. *)
Lemma extend_all_run result others h first trees :
  h !! result = Some first →
  Forall2 (λ tree l, l ≠ result ∧ h !! l = Some tree) trees others →
  extend_all result others h = (Ok (), <[result := merge first trees]> h).
Proof.
  revert h first trees.
  induction others as [|l others IH]; intros h first trees Hresult Hothers.
  - apply Forall2_nil_inv_r in Hothers as ->. simpl.
    by rewrite list_insert_id.
  - apply Forall2_cons_inv_r in Hothers
      as (tree & trees' & [Hne Hl] & Hrest & ->).
    simpl. rewrite run_bind. unfold node_at at 1. rewrite Hl.
    rewrite run_bind. unfold extend_at at 1. rewrite Hresult.
    rewrite (IH _ (extend first (children tree)) trees').
    + by rewrite list_insert_insert_eq.
    + apply list_lookup_insert_eq. by eapply lookup_lt_Some.
    + eapply Forall2_impl; [exact Hrest|].
      intros tree' l' [Hne' Hl']. split; [done|].
      by rewrite list_lookup_insert_ne.
Qed.

Lemma Forall2_and_r {A B} (Q : A → B → Prop) (R : B → Prop) l k :
  Forall2 Q l k → Forall R k → Forall2 (λ a b, R b ∧ Q a b) l k.
Proof.
  induction 1 as [|a b l k Hab _ IH]; [constructor|].
  intros [Hb Hk]%Forall_cons. constructor; [done | by apply IH].
Qed.

(** With the resolved trees as objects and the extension in place, the
    renderer ends as with values, whatever the store holds, and the objects
    that existed before the call are as they were. *)
Lemma toctree_from_doc_objects_run docname kwargs e h :
  ∃ h',
    toctree_from_doc_objects app pagename docname kwargs (e, h)
    = ((toctree_from_doc app pagename docname kwargs e).1,
       ((toctree_from_doc app pagename docname kwargs e).2, h')) ∧
    h `prefix_of` h'.
Proof.
  rewrite toctree_from_doc_run. unfold toctree_from_doc_objects.
  rewrite run_bind, in_env_run.
  destruct (get_doctree app docname e) as [[doc|err] e1]; cbn [fst snd];
    [|by exists h].
  destruct (findall "toctree" doc) as [|t ts]; [by exists h|].
  rewrite run_bind.
  pose proof (resolve_objects_run kwargs (t :: ts) e1 h) as Hobjects.
  destruct (mapM (resolve_one app pagename kwargs) (t :: ts) e1)
    as [[rs|err] e2]; last first.
  { destruct Hobjects as (h' & -> & Hpre). by exists h'. }
  destruct Hobjects as (ls & h' & -> & Hpre & Hat & Hnew & Hdup).
  destruct (omap id rs) as [|first trees].
  { apply Forall2_nil_inv_l in Hat as ->. by exists h'. }
  apply Forall2_cons_inv_l in Hat as (result & others & Hresult & Hat & Hls).
  rewrite Hls in Hnew, Hdup |- *.
  apply NoDup_cons in Hdup as [Hnotin _].
  apply Forall_cons in Hnew as [Hresult_new _].
  rewrite run_bind, in_store_run.
  rewrite (extend_all_run result others h' first trees Hresult); last first.
  { apply Forall2_and_r; [done|].
    apply Forall_forall. intros l Hl ->. done. }
  cbn [fst snd].
  rewrite run_bind, in_store_run. unfold node_at.
  rewrite list_lookup_insert_eq by (by eapply lookup_lt_Some).
  cbn [fst snd].
  rewrite !run_bind, in_env_run.
  exists (<[result := merge first trees]> h'). split.
  - by destruct (render_partial app (merge first trees) e2) as [[parts|err] e3].
  - destruct Hpre as [k ->].
    rewrite insert_app_r_alt by done. by apply prefix_app_r.
Qed.

End ObjectRendererFacts.

Section ObjectRendererClaims.
Context {Env : Type} (app : application Env) (pagename : string).

(** C9.  With the resolved trees as objects that line 159 extends in place:
    when the environment of the application is, at the second call, what it
    was at the first, the two calls return the same thing, whatever the
    first call left in the object store. *)
Theorem toctree_from_doc_objects_idempotent docname kwargs e h out1 e1 h1 :
  toctree_from_doc_objects app pagename docname kwargs (e, h)
  = (out1, (e1, h1)) →
  e1 = e →
  result (toctree_from_doc_objects app pagename docname kwargs) (e1, h1)
  = out1.
Proof.
  intros Hfirst ->. unfold result.
  destruct (toctree_from_doc_objects_run app pagename docname kwargs e h)
    as (h' & Hrun & _).
  destruct (toctree_from_doc_objects_run app pagename docname kwargs e h1)
    as (h2 & -> & _).
  rewrite Hrun in Hfirst. by injection Hfirst as <- _ _.
Qed.

(** X14.  The renderer with objects ends as the renderer with values, in
    result, exception and environment, whatever the object store holds
    when it is called; and it leaves every object that existed before the
    call as it was: the extension in place of line 159 falls on a tree
    resolved during the call. *)
Theorem toctree_from_doc_objects_refines docname kwargs e h :
  ∃ h',
    toctree_from_doc_objects app pagename docname kwargs (e, h)
    = ((toctree_from_doc app pagename docname kwargs e).1,
       ((toctree_from_doc app pagename docname kwargs e).2, h')) ∧
    (length h ≤ length h')%nat ∧
    (∀ l n, h !! l = Some n → h' !! l = Some n).
Proof.
  destruct (toctree_from_doc_objects_run app pagename docname kwargs e h)
    as (h' & Hrun & Hpre).
  exists h'. split; [done|]. split.
  - by apply prefix_length.
  - intros l n Hl. by eapply prefix_lookup_Some.
Qed.

End ObjectRendererClaims.

Lemma toctree_from_doc_objects_idempotent_witness :
  toctree_from_doc_objects demo_app "usage" "index" ∅ (["index"], [])
  = (Ok "<compact_paragraph><reference>install</reference><current>usage</current><reference>api</reference></compact_paragraph>",
     (["index"],
      [Element "compact_paragraph" ""
         [Element "reference" "install" []; Element "current" "usage" [];
          Element "reference" "api" []];
       demo_reference])) ∧
  result (toctree_from_doc_objects demo_app "usage" "index" ∅)
    (["index"],
     [Element "compact_paragraph" ""
        [Element "reference" "install" []; Element "current" "usage" [];
         Element "reference" "api" []];
      demo_reference])
  = Ok "<compact_paragraph><reference>install</reference><current>usage</current><reference>api</reference></compact_paragraph>".
Proof.
  split; [reflexivity|].
  apply (toctree_from_doc_objects_idempotent demo_app "usage" "index" ∅
           ["index"] [] _ ["index"] _); reflexivity.
Defined.
